(** * The faceted filtering and ranking engine of [python_app/app.py]

    A shallow embedding of the pure core of the catalog browser: the
    normaliser ([augment_product_data] and its parsers), the filter
    evaluator ([apply_filters]), the facet counters ([count_with_toggled],
    [count_with_included]), the salience ranker ([compute_salience]), the
    request parser ([parse_filters]) and the sorter ([sort_products]).

    Conventions of the embedding.
    - A Python [str] is a [string]: the sequence of bytes of its UTF-8
      encoding.  Substring search, replacement, splitting and comparison
      agree with the code-point versions on such sequences.  The character
      classes ([isdigit], [isspace]) and [lower] are the ASCII ones, so the
      model follows Python on every text whose characters outside ASCII are
      neither digits, nor spaces, nor cased letters.
    - A [dict] is a [gmap]; a [set] is a [gset]; the functions embedded here
      never depend on the iteration order of either (shown where a result is
      built by a loop over one).
    - A raised exception is [None] in an [option] result.
    - The request-scoped bag [g.quick_pick_attrs] and the module constant
      [PRICE_DB] are explicit parameters. *)

From Stdlib Require Import ZArith String Ascii List Lia DecimalString.
From Stdlib Require Import Sorting.Sorted Sorting.Permutation.
From stdpp Require Import gmap strings list fin_maps sorting.

Local Open Scope string_scope.
Local Open Scope Z_scope.

(** ** Python strings *)

Module PyStr.

Definition code (c : ascii) : Z := Z.of_N (N_of_ascii c).

(** [ch.isdigit()] *)
Definition isdigit (c : ascii) : bool := (48 <=? code c) && (code c <=? 57).

Definition digit_value (c : ascii) : Z := code c - 48.

(** [ch.isspace()]: tab, line feed, vertical tab, form feed, carriage
    return, the four separators 0x1c-0x1f, and the space. *)
Definition isspace (c : ascii) : bool :=
  ((9 <=? code c) && (code c <=? 13)) || ((28 <=? code c) && (code c <=? 32)).

Definition lower_char (c : ascii) : ascii :=
  if (65 <=? code c) && (code c <=? 90)
  then ascii_of_N (N_of_ascii c + 32) else c.

(** [s.lower()] *)
Fixpoint lower (s : string) : string :=
  match s with
  | EmptyString => EmptyString
  | String c s' => String (lower_char c) (lower s')
  end.

Fixpoint lstrip (s : string) : string :=
  match s with
  | EmptyString => EmptyString
  | String c s' => if isspace c then lstrip s' else s
  end.

Definition rstrip (s : string) : string := String.rev (lstrip (String.rev s)).

(** [s.strip()] *)
Definition strip (s : string) : string := rstrip (lstrip s).

(** [s.startswith(p)] *)
Definition startswith (s p : string) : bool := String.prefix p s.

(** [sub in s] *)
Fixpoint contains (sub s : string) : bool :=
  String.prefix sub s ||
  match s with
  | EmptyString => false
  | String _ s' => contains sub s'
  end.

(** [s.replace(old, new)] for a non-empty [old]: occurrences are replaced
    from the left and do not overlap; [skip] counts the characters of a
    matched occurrence that are still to be passed over. *)
Fixpoint replace_go (old new : string) (skip : nat) (s : string) : string :=
  match s with
  | EmptyString => EmptyString
  | String c s' =>
      match skip with
      | S k => replace_go old new k s'
      | O =>
          if String.prefix old s
          then new ++ replace_go old new (Nat.pred (String.length old)) s'
          else String c (replace_go old new O s')
      end
  end.

Definition replace (old new s : string) : string := replace_go old new O s.

(** [s.split(sep)] for a non-empty [sep]: the token being read and the
    tokens that follow it. *)
Fixpoint split_go (sep : string) (skip : nat) (s : string) : string * list string :=
  match s with
  | EmptyString => (EmptyString, [])
  | String c s' =>
      match skip with
      | S k => split_go sep k s'
      | O =>
          if String.prefix sep s
          then let '(t, ts) := split_go sep (Nat.pred (String.length sep)) s' in
               (EmptyString, t :: ts)
          else let '(t, ts) := split_go sep O s' in (String c t, ts)
      end
  end.

Definition split (sep s : string) : list string :=
  let '(t, ts) := split_go sep O s in t :: ts.

(** [''.join(ch for ch in s if ch.isdigit())] *)
Fixpoint digits_of (s : string) : string :=
  match s with
  | EmptyString => EmptyString
  | String c s' => if isdigit c then String c (digits_of s') else digits_of s'
  end.

(** The value of a string of decimal digits, as [int] reads it. *)
Fixpoint int_of_digits (acc : Z) (s : string) : Z :=
  match s with
  | EmptyString => acc
  | String c s' => int_of_digits (10 * acc + digit_value c) s'
  end.

Definition nonempty (s : string) : bool :=
  match s with EmptyString => false | String _ _ => true end.

(** The digits of [int(s)] after the sign: decimal digits, with single
    underscores allowed between two digits. *)
Fixpoint int_body (acc : Z) (after_digit : bool) (s : string) : option Z :=
  match s with
  | EmptyString => if after_digit then Some acc else None
  | String c r =>
      if isdigit c then int_body (10 * acc + digit_value c) true r
      else if Ascii.eqb c "_" && after_digit
           then match r with
                | String c' _ => if isdigit c' then int_body acc false r else None
                | EmptyString => None
                end
           else None
  end.

(** [int(s)] on a string: surrounding white space, an optional sign, the
    digits; [None] is [ValueError]. *)
Definition int_of_str (s : string) : option Z :=
  match strip s with
  | String "-" r => Z.opp <$> int_body 0 false r
  | String "+" r => int_body 0 false r
  | t => int_body 0 false t
  end.

(** [str(n)] for an [int] *)
Definition str_of_int (n : Z) : string := NilZero.string_of_int (Z.to_int n).

End PyStr.

(** ** Python floats

    The non-negative values of IEEE 754 binary64 that the throughput parser
    can produce: [Finite m e] is [m * 2^e]; every conversion rounds to
    nearest, ties to even, as the hardware and Python's [float] do. *)

Module PyFloat.

Inductive float64 : Set :=
| Finite (m e : Z)
| Infinity.

(** The integer nearest to [n / d], ties to the even one ([0 <= n], [0 < d]). *)
Definition half_even (n d : Z) : Z :=
  let q := n / d in
  let r := n mod d in
  match 2 * r ?= d with
  | Lt => q
  | Gt => q + 1
  | Eq => if Z.even q then q else q + 1
  end.

(** [n / (d * 2^e)] as a fraction of integers. *)
Definition scale (n d e : Z) : Z * Z :=
  if 0 <=? e then (n, d * 2 ^ e) else (n * 2 ^ (- e), d).

(** [floor (log2 (n / d))] for [0 < n], [0 < d]. *)
Definition floor_log2 (n d : Z) : Z :=
  let k := Z.log2 n - Z.log2 d in
  let '(n', d') := scale n d k in
  if n' <? d' then k - 1 else k.

(** The binary64 nearest to [n / d]: 53 significant bits, exponents no
    smaller than that of the subnormals, overflow to infinity. *)
Definition round64 (n d : Z) : float64 :=
  if n =? 0 then Finite 0 0
  else
    let e := Z.max (floor_log2 n d - 52) (-1074) in
    let '(n', d') := scale n d e in
    let m := half_even n' d' in
    if (0 <=? e) && (2 ^ 1024 <=? m * 2 ^ e) then Infinity else Finite m e.

Definition zero : float64 := Finite 0 0.

(** [x * k] for a float [x] and a small positive [int] [k] (which converts
    to a float exactly). *)
Definition mul_int (x : float64) (k : Z) : float64 :=
  match x with
  | Infinity => Infinity
  | Finite m e =>
      if 0 <=? e then round64 (m * k * 2 ^ e) 1 else round64 (m * k) (2 ^ (- e))
  end.

(** [int(round(x))]: [None] is the [OverflowError] of [round(inf)]. *)
Definition round_int (x : float64) : option Z :=
  match x with
  | Infinity => None
  | Finite m e => Some (if 0 <=? e then m * 2 ^ e else half_even m (2 ^ (- e)))
  end.

(** The part of a number token before its first point, and what follows
    the point. *)
Fixpoint split_point (s : string) : string * string :=
  match s with
  | EmptyString => (EmptyString, EmptyString)
  | String c s' =>
      if Ascii.eqb c "."
      then (EmptyString, s')
      else let '(i, f) := split_point s' in (String c i, f)
  end.

(** [float(num)] on the tokens the throughput parser builds (decimal
    digits and at most one point); [None] is the [ValueError] raised for a
    token without any digit. *)
Definition of_token (num : string) : option float64 :=
  let '(i, f) := split_point num in
  if PyStr.nonempty (i ++ f)
  then Some (round64 (PyStr.int_of_digits 0 (i ++ f))
                     (10 ^ Z.of_nat (String.length f)))
  else None.

End PyFloat.

(** ** Values and records

    The raw catalog is string-valued; augmenting a record adds integers (the
    derived numeric fields) and the price map of the product. *)

Record price_map : Set := PriceMap {
  price_essential : Z;
  price_business : Z;
  price_enterprise : Z
}.

Inductive Value : Set :=
| VStr (s : string)
| VInt (n : Z)
| VPrices (p : price_map).

Global Instance price_map_eq_dec : EqDecision price_map.
Proof. solve_decision. Defined.

Global Instance Value_eq_dec : EqDecision Value.
Proof. solve_decision. Defined.

(** A product record, and a product as the pair [(name, data)]. *)
Abbreviation record := (gmap string Value).
Abbreviation product := (string * gmap string Value)%type.

(** A filter set: attribute name to the list of selected values. *)
Abbreviation filter_set := (gmap string (list string)).

Module Py.
Import PyStr.

(** [str(v)] *)
Definition str (v : Value) : string :=
  match v with
  | VStr s => s
  | VInt n => str_of_int n
  | VPrices p =>
      "{'Essential': " ++ str_of_int (price_essential p) ++
      ", 'Business': " ++ str_of_int (price_business p) ++
      ", 'Enterprise': " ++ str_of_int (price_enterprise p) ++ "}"
  end.

(** [int(v)]: [None] is [ValueError] or [TypeError]. *)
Definition int (v : Value) : option Z :=
  match v with
  | VStr s => int_of_str s
  | VInt n => Some n
  | VPrices _ => None
  end.

(** Truth value of [v], as in [if not v]. *)
Definition truthy (v : Value) : bool :=
  match v with
  | VStr s => nonempty s
  | VInt n => negb (n =? 0)
  | VPrices _ => true
  end.

(** [d.get(k, default)] *)
Definition get (d : record) (k : string) (dflt : Value) : Value :=
  default dflt (d !! k).

End Py.

(** The characters the source writes as escapes, in UTF-8. *)
Definition NBSP : string := String (ascii_of_N 194) (String (ascii_of_N 160) "").
Definition EN_DASH : string :=
  String (ascii_of_N 226) (String (ascii_of_N 128) (String (ascii_of_N 147) "")).
Definition EM_DASH : string :=
  String (ascii_of_N 226) (String (ascii_of_N 128) (String (ascii_of_N 148) "")).

(** ** The normaliser's parsers *)

(** The loop of [_parse_int_prefix]: [num] collects the first run of digits. *)
Fixpoint int_prefix_scan (num : string) (value : string) : string :=
  match value with
  | EmptyString => num
  | String ch rest =>
      if PyStr.isdigit ch then int_prefix_scan (num ++ String ch "") rest
      else if PyStr.nonempty num then num
      else int_prefix_scan num rest
  end.

Definition _parse_int_prefix (value : string) : Z :=
  let num := int_prefix_scan "" value in
  if PyStr.nonempty num then PyStr.int_of_digits 0 num else 0.

Definition _yes_no (val : Value) : Value :=
  let s := PyStr.lower (PyStr.strip (Py.str val)) in
  if PyStr.startswith s "y" then VStr "Yes"
  else if PyStr.startswith s "n" then VStr "No"
  else val.

Definition _strip_nbsp (s : Value) : string :=
  PyStr.strip (PyStr.replace NBSP " " (Py.str s)).

(** The loop of [_parse_mbps]: [num] collects digits and at most one point. *)
Fixpoint mbps_scan (num : string) (dot_seen : bool) (s : string) : string :=
  match s with
  | EmptyString => num
  | String ch rest =>
      if PyStr.isdigit ch then mbps_scan (num ++ String ch "") dot_seen rest
      else if Ascii.eqb ch "." && negb dot_seen then mbps_scan (num ++ ".") true rest
      else if PyStr.nonempty num then num
      else mbps_scan num dot_seen rest
  end.

(** The test that selects the multiplier 1000. *)
Definition gigabit_marker (low : string) : bool :=
  PyStr.contains "gbps" low || PyStr.contains "gbit" low
  || PyStr.contains " 2.5 g" low || PyStr.contains "g " low.

Definition _parse_mbps (s : Value) : option Z :=
  if negb (Py.truthy s) then Some 0
  else
    let s := _strip_nbsp s in
    let num := mbps_scan "" false s in
    let val :=
      if PyStr.nonempty num then default PyFloat.zero (PyFloat.of_token num)
      else PyFloat.zero in
    let low := PyStr.lower s in
    let mult := if gigabit_marker low then 1000 else 1 in
    PyFloat.round_int (PyFloat.mul_int val mult).

(** [nums] of [_parse_users_range]: the digits of every part that has some. *)
Definition range_nums (parts : list string) : list Z :=
  omap (fun part =>
          let digits := PyStr.digits_of part in
          if PyStr.nonempty digits then Some (PyStr.int_of_digits 0 digits) else None)
       parts.

Definition _parse_users_range (s : Value) : Z * Z :=
  if negb (Py.truthy s) then (0, 0)
  else
    let s := _strip_nbsp s in
    let s := PyStr.replace EM_DASH "-" (PyStr.replace EN_DASH "-" s) in
    match range_nums (PyStr.split "-" s) with
    | [] =>
        let digits := PyStr.digits_of s in
        if PyStr.nonempty digits
        then (PyStr.int_of_digits 0 digits, PyStr.int_of_digits 0 digits)
        else (0, 0)
    | [n] => (n, n)
    | n0 :: n1 :: _ => (Z.min n0 n1, Z.max n0 n1)
    end.

(** [max([_parse_int_prefix(tok) for tok in
          _strip_nbsp(v).replace('or', '/').split('/')])];
    [split] always yields a first token, so the list is never empty. *)
Definition ports_max (v : Value) : Z :=
  let '(tok, toks) :=
    PyStr.split_go "/" O (PyStr.replace "or" "/" (_strip_nbsp v)) in
  foldl Z.max (_parse_int_prefix tok) (_parse_int_prefix <$> toks).

(** ** The normaliser: [augment_product_data] *)

Definition PRICE_MATRIX_KEY : string := "_client_price_matrix".

(** [if price_map: out[PRICE_MATRIX_KEY] = price_map] *)
Definition attach_price (price : option price_map) (out : record) : record :=
  match price with
  | Some p => <[PRICE_MATRIX_KEY := VPrices p]> out
  | None => out
  end.

(** The bucket derived from ["Number of Cellular Modems"]. *)
Definition modem_group (out : record) : string :=
  let count :=
    match out !! "Number of Cellular Modems" with
    | Some modem_raw => _parse_int_prefix (Py.str modem_raw)
    | None => 0
    end in
  if count <=? 0 then "None"
  else if count =? 1 then "Single"
  else "Multi".

(** [if k in out: out[k] = _yes_no(out[k])] *)
Definition normalize_flag (k : string) (out : record) : record :=
  match out !! k with
  | Some v => <[k := _yes_no v]> out
  | None => out
  end.

Definition has_5g (out : record) : bool :=
  existsb (fun s => PyStr.contains "5g" (PyStr.lower s))
    [ Py.str (Py.get out "Number of Cellular Modems" (VStr ""));
      Py.str (Py.get out "Cellular Modem Category options" (VStr ""));
      Py.str (Py.get out "short_description" (VStr "")) ].

(** [cur_5g is None or str(cur_5g).strip() == ""] *)
Definition blank (cur : option Value) : bool :=
  match cur with
  | None => true
  | Some c => String.eqb (PyStr.strip (Py.str c)) ""
  end.

Definition infer_5g (out : record) : record :=
  let cur_5g := out !! "5G support" in
  if has_5g out && negb (bool_decide (cur_5g = Some (VStr "Yes")))
  then <["5G support" := VStr "Yes"]> out
  else if negb (has_5g out) && blank cur_5g
       then <["5G support" := VStr "No"]> out
       else out.

(** [if canonical not in out and legacy in out: out[canonical] = out[legacy]] *)
Definition unify_key (canonical legacy : string) (out : record) : record :=
  match out !! canonical, out !! legacy with
  | None, Some v => <[canonical := v]> out
  | _, _ => out
  end.

(** [if src in out: out[dst] = _parse_mbps(out[src])] *)
Definition derive_mbps (src dst : string) (out : record) : option record :=
  match out !! src with
  | Some v => n ← _parse_mbps v; Some (<[dst := VInt n]> out)
  | None => Some out
  end.

Definition derive_users (out : record) : record :=
  match out !! "Number of Recommended Users" with
  | Some v =>
      let '(lo, hi) := _parse_users_range v in
      <["Users Max" := VInt hi]> (<["Users Min" := VInt lo]> out)
  | None => out
  end.

Definition derive_ports (src dst : string) (out : record) : record :=
  match out !! src with
  | Some v => <[dst := VInt (ports_max v)]> out
  | None => out
  end.

Section Catalog.

(** The price table built once from the catalog at start-up. *)
Variable PRICE_DB : gmap string (gmap string price_map).

Definition augment_product_data (category name : string) (pdata : record)
  : option record :=
  let out := pdata in
  let out := attach_price (PRICE_DB !! category ≫= (.!! name)) out in
  let out := <["Modem Group" := VStr (modem_group out)]> out in
  let out := normalize_flag "Wi‑Fi AP" out in
  let out := normalize_flag "5G support" out in
  let out := infer_5g out in
  let out := unify_key "SpeedFusion Throughput (no encryption)"
                       "SpeedFusion VPN Throughput (No Encryption)" out in
  let out := unify_key "SpeedFusion Throughput (256‑bit AES)"
                       "SpeedFusion VPN Throughput (256‑bit AES)" out in
  out ← derive_mbps "Router Throughput" "Router Throughput (Mbps)" out;
  out ← derive_mbps "SpeedFusion Throughput (no encryption)" "SpeedFusion (Mbps)" out;
  let out := derive_users out in
  let out := derive_ports "Number of Ethernet WAN ports" "WAN Ports Max" out in
  let out := derive_ports "Number of Ethernet LAN ports" "LAN Ports Max" out in
  Some out.

End Catalog.

(** ** The request parser: [parse_filters]

    The request arguments are the multimap of the query string: its pairs
    in the order supplied.  [keys] lists each key once and [getlist k] the
    values supplied for [k], in order. *)

Definition multidict := list (string * string).

Definition keys (args : multidict) : list string := remove_dups (args.*1).

Definition getlist (k : string) (args : multidict) : list string :=
  snd <$> List.filter (fun kv => String.eqb kv.1 k) args.

Definition RESERVED_ARGS : list string :=
  ["category"; "client_category"; "short_description"; "min_router_mbps";
   "min_speedfusion_mbps"; "min_users"; "sort"; "embed"].

(** The body of the loop over [args.keys()]. *)
Definition select_first (args : multidict) (filters : filter_set) (k : string)
  : filter_set :=
  if bool_decide (k ∈ RESERVED_ARGS) then filters
  else match getlist k args with
       | v :: _ => <[k := [v]]> filters
       | [] => filters
       end.

Definition parse_filters (args : multidict) : filter_set :=
  foldl (select_first args) ∅ (keys args).

(** ** The filter evaluator: [apply_filters] *)

Record numeric_filters : Set := NumericFilters {
  min_router_mbps : option Z;
  min_speedfusion_mbps : option Z;
  min_users : option Z
}.

(** The inner loop over [filters.items()]: [ok] stays true. *)
Definition passes (filters : filter_set) (data : record) : bool :=
  forallb (fun '(attr, vals) =>
             bool_decide (Py.str (Py.get data attr (VStr "")) ∈ vals))
          (map_to_list filters).

(** [[(n, d) for (n, d) in filtered if int(d.get(key, 0)) >= bound]] *)
Fixpoint at_least (key : string) (bound : Z) (filtered : list product)
  : option (list product) :=
  match filtered with
  | [] => Some []
  | p :: rest =>
      n ← Py.int (Py.get p.2 key (VInt 0));
      kept ← at_least key bound rest;
      Some (if bound <=? n then p :: kept else kept)
  end.

Definition constrain (key : string) (bound : option Z) (filtered : list product)
  : option (list product) :=
  match bound with
  | Some b => at_least key b filtered
  | None => Some filtered
  end.

(** The categorical stage: [filtered] before the numeric constraints. *)
Definition categorical (products : list product) (filters : filter_set)
  : list product :=
  if decide (filters = ∅) then products
  else List.filter (fun p => passes filters p.2) products.

Definition apply_filters (products : list product) (filters : filter_set)
    (numeric : option numeric_filters) : option (list product) :=
  let filtered := categorical products filters in
  let nf := default (NumericFilters None None None) numeric in
  filtered ← constrain "Router Throughput (Mbps)" (min_router_mbps nf) filtered;
  filtered ← constrain "SpeedFusion (Mbps)" (min_speedfusion_mbps nf) filtered;
  constrain "Users Max" (min_users nf) filtered.

(** ** The facet counters *)

(** The loop that pops every other quick-pick attribute. *)
Definition clear_others (quick_pick_attrs : gset string) (attr : string)
    (f : filter_set) : filter_set :=
  foldl (fun (f : filter_set) qp_attr =>
           if decide (qp_attr ≠ attr) then delete qp_attr f else f)
        f (elements quick_pick_attrs).

(** The hypothetical filter set [f] of [count_with_toggled]. *)
Definition toggled_filters (quick_pick_attrs : gset string)
    (current_filters : filter_set) (attr val : string) : filter_set :=
  let f := current_filters in
  let existing := default [] (f !! attr) in
  if bool_decide (val ∈ existing) && (length existing =? 1)%nat
  then delete attr f
  else
    let f := <[attr := [val]]> f in
    if decide (attr ∈ quick_pick_attrs)
    then clear_others quick_pick_attrs attr f
    else f.

(** The hypothetical filter set [f] of [count_with_included]. *)
Definition included_filters (quick_pick_attrs : gset string)
    (current_filters : filter_set) (attr val : string) : filter_set :=
  let f := <[attr := [val]]> current_filters in
  if decide (attr ∈ quick_pick_attrs)
  then clear_others quick_pick_attrs attr f
  else f.

Definition count_with_toggled (quick_pick_attrs : gset string)
    (products_all : list product) (current_filters : filter_set)
    (attr val : string) (numeric : option numeric_filters) : option nat :=
  length <$> apply_filters products_all
               (toggled_filters quick_pick_attrs current_filters attr val) numeric.

Definition count_with_included (quick_pick_attrs : gset string)
    (products_all : list product) (current_filters : filter_set)
    (attr val : string) (numeric : option numeric_filters) : option nat :=
  length <$> apply_filters products_all
               (included_filters quick_pick_attrs current_filters attr val) numeric.

(** ** Sorting as Python's [sorted] does

    [sorted] computes every key first, then sorts stably with [<] on the
    keys.  The result of a stable sort is determined by the input, so the
    insertion sort below returns the list that [sorted] returns. *)

Section PySorted.
Context {K A : Type} (ltb : K → K → bool).

Fixpoint insert_by (x : K * A) (l : list (K * A)) : list (K * A) :=
  match l with
  | [] => [x]
  | y :: l' => if ltb y.1 x.1 then y :: insert_by x l' else x :: l
  end.

Definition sort_decorated (l : list (K * A)) : list (K * A) :=
  foldr insert_by [] l.

Definition py_sorted (key : A → option K) (l : list A) : option (list A) :=
  decorated ← mapM (fun x => k ← key x; Some (k, x)) l;
  Some ((sort_decorated decorated).*2).

(** [x] may stand before [y]: the key of [y] is not below the key of [x]. *)
Definition key_le (x y : K * A) : Prop := ltb y.1 x.1 = false.
End PySorted.

(** [<] on the tuples [(int, str)] used as sort keys. *)
Definition tuple_ltb (x y : Z * string) : bool :=
  (x.1 <? y.1) || ((x.1 =? y.1) && String.ltb x.2 y.2).

(** ** The salience ranker: [compute_salience] *)

Definition INDEX_SKIPPED : list string :=
  ["Citations"; "pdf_url"; "short_description"; "Router Throughput (Mbps)";
   "SpeedFusion (Mbps)"; "Users Min"; "Users Max"; "WAN Ports Max";
   "LAN Ports Max"].

(** The body of the loop over [pdata.items()] in [build_attribute_index]. *)
Definition index_add (k : string) (v : Value) (idx : gmap string (gset string))
  : gmap string (gset string) :=
  if bool_decide (k ∈ INDEX_SKIPPED) || String.eqb k PRICE_MATRIX_KEY
  then idx
  else <[k := default ∅ (idx !! k) ∪ {[Py.str v]}]> idx.

Definition build_attribute_index (products : list product)
  : gmap string (gset string) :=
  foldl (fun idx (p : product) => map_fold index_add idx p.2) ∅ products.

(** The values an index records for an attribute. *)
Definition index_values (idx : gmap string (gset string)) (k : string)
  : gset string :=
  default ∅ (idx !! k).

(** An attribute that [build_attribute_index] leaves out. *)
Definition index_skips (k : string) : Prop :=
  k ∈ INDEX_SKIPPED ∨ k = PRICE_MATRIX_KEY.

(** [scores]: the attributes with more than one distinct value. *)
Definition salience_scores (idx : gmap string (gset string)) : list (string * Z) :=
  omap (fun '(attr, values) =>
          let distinct := Z.of_nat (size (values : gset string)) in
          if distinct <=? 1 then None else Some (attr, distinct))
       (map_to_list idx).

(** The sort key of a score: [(-x[1], x[0])]. *)
Definition score_key (x : string * Z) : Z * string := (- x.2, x.1).

(** The ranking of an attribute index: the part of [compute_salience] that
    follows the call to [build_attribute_index]. *)
Definition rank (idx : gmap string (gset string)) : list string :=
  (default [] (py_sorted tuple_ltb (fun x => Some (score_key x))
                 (salience_scores idx))).*1.

Definition compute_salience (products_all : list product) : list string :=
  rank (build_attribute_index products_all).

(** ** The sorter: [sort_products] *)

Definition by_name (x : product) : option string := Some (PyStr.lower x.1).

Definition by_metric (field : string) (x : product) : option (Z * string) :=
  n ← Py.int (Py.get x.2 field (VInt 0)); Some (- n, PyStr.lower x.1).

Definition sort_products (items : list product) (key : option string)
  : option (list product) :=
  match key with
  | None => py_sorted String.ltb by_name items
  | Some key =>
      if negb (PyStr.nonempty key) then py_sorted String.ltb by_name items
      else if String.eqb key "router_desc"
        then py_sorted tuple_ltb (by_metric "Router Throughput (Mbps)") items
      else if String.eqb key "speedfusion_desc"
        then py_sorted tuple_ltb (by_metric "SpeedFusion (Mbps)") items
      else if String.eqb key "users_desc"
        then py_sorted tuple_ltb (by_metric "Users Max") items
      else if String.eqb key "name_asc"
        then py_sorted String.ltb by_name items
      else Some items
  end.

(** ** Specification vocabulary and worked inputs *)

(** Every attribute of the filter set has exactly one selected value. *)
Definition single_valued (f : filter_set) : Prop :=
  map_Forall (fun _ vals => ∃ v : string, vals = [v]) f.

(** The quick-pick group of the "Mobile Routers" category. *)
Definition ex_quick_picks : gset string := {["Modem Group"; "5G support"]}.

(** One single-modem router without 5G. *)
Definition ex_catalog : list product :=
  [("BR1 Mini",
    <["Modem Group" := VStr "Single"]> (<["5G support" := VStr "No"]> ∅))].

(** The request [?5G support=Yes]. *)
Definition ex_5g_selected : filter_set := <["5G support" := ["Yes"]]> ∅.

(** The request [?Series=X]. *)
Definition ex_series_selected : filter_set := <["Series" := ["X"]]> ∅.

(** A three-member group, and a filter set with [A = x] and [B = y] selected. *)
Definition ex_group_abc : gset string := {["A"; "B"; "C"]}.
Definition ex_filters_ab : filter_set := <["A" := ["x"]]> (<["B" := ["y"]]> ∅).

(** The query string [?Series=A&sort=name_asc&Series=B]. *)
Definition ex_args : multidict :=
  [("Series", "A"); ("sort", "name_asc"); ("Series", "B")].

(** The converted value of a numeric field, 0 when it is missing. *)
Definition metric (field : string) (p : product) : Z :=
  default 0 (Py.int (Py.get p.2 field (VInt 0))).

(** The field of [p], if present, converts with [int]. *)
Definition numeric_field (field : string) (p : product) : Prop :=
  is_Some (Py.int (Py.get p.2 field (VInt 0))).

(** Case-insensitive name ascending. *)
Definition name_le (p q : product) : Prop :=
  String.le (PyStr.lower p.1) (PyStr.lower q.1).

(** Metric descending, ties by case-insensitive name ascending. *)
Definition metric_desc_then_name (field : string) (p q : product) : Prop :=
  metric field q < metric field p
  ∨ (metric field p = metric field q ∧ name_le p q).

Definition RECOGNIZED_SORT_KEYS : list string :=
  ["name_asc"; "router_desc"; "speedfusion_desc"; "users_desc"].

(** Two products already in an order that no sort would give. *)
Definition ex_unsorted : list product := [("b", ∅); ("a", ∅)].

(** The number of distinct values of an attribute in an index. *)
Definition distinct_count (idx : gmap string (gset string)) (a : string) : Z :=
  Z.of_nat (size (default ∅ (idx !! a))).

(** Distinct-value count descending, ties by attribute name ascending in
    the order of [str]. *)
Definition salience_order (idx : gmap string (gset string)) (a b : string)
  : Prop :=
  distinct_count idx b < distinct_count idx a
  ∨ (distinct_count idx a = distinct_count idx b ∧ String.le a b).

(** The same with the tie broken on the lower-cased names. *)
Definition salience_order_ci (idx : gmap string (gset string)) (a b : string)
  : Prop :=
  distinct_count idx b < distinct_count idx a
  ∨ (distinct_count idx a = distinct_count idx b
     ∧ String.le (PyStr.lower a) (PyStr.lower b)).

(** Two products that differ in the attributes ["Band"] and ["antenna"]. *)
Definition ex_two_attrs : list product :=
  [("p1", <["Band" := VStr "n78"]> (<["antenna" := VStr "internal"]> ∅));
   ("p2", <["Band" := VStr "n41"]> (<["antenna" := VStr "external"]> ∅))].

(** Four routers, two of them with the same throughput. *)
Definition ex_routers : list product :=
  [("b", <["Router Throughput (Mbps)" := VInt 300]> ∅);
   ("C", <["Router Throughput (Mbps)" := VInt 300]> ∅);
   ("a", <["Router Throughput (Mbps)" := VInt 2500]> ∅);
   ("z", ∅)].


(** *** Throughput parsing as the specification words it

    "Extracts the first decimal number": the text is searched for the first
    digit, or point directly followed by a digit; the number is the run of
    digits from there, with at most one point. *)

Definition starts_with_digit (s : string) : bool :=
  match s with
  | EmptyString => false
  | String c _ => PyStr.isdigit c
  end.

Fixpoint number_tail (dot_seen : bool) (s : string) : string :=
  match s with
  | EmptyString => EmptyString
  | String ch rest =>
      if PyStr.isdigit ch then String ch (number_tail dot_seen rest)
      else if Ascii.eqb ch "." && negb dot_seen
           then String ch (number_tail true rest)
           else EmptyString
  end.

Fixpoint first_decimal_number (s : string) : string :=
  match s with
  | EmptyString => EmptyString
  | String ch rest =>
      if PyStr.isdigit ch then String ch (number_tail false rest)
      else if Ascii.eqb ch "." && starts_with_digit rest
           then String ch (number_tail true rest)
           else first_decimal_number rest
  end.

(** The first decimal number, times 1000 when the text has a gigabit marker,
    and 0 for an empty text or one without a number. *)
Definition spec_parse_mbps (s : string) : option Z :=
  if negb (PyStr.nonempty s) then Some 0
  else
    let t := _strip_nbsp (VStr s) in
    let num := first_decimal_number t in
    let val :=
      if PyStr.nonempty num then default PyFloat.zero (PyFloat.of_token num)
      else PyFloat.zero in
    PyFloat.round_int
      (PyFloat.mul_int val (if gigabit_marker (PyStr.lower t) then 1000 else 1)).

(** A point that the scan meets before any digit and that no digit follows. *)
Fixpoint stray_point (s : string) : bool :=
  match s with
  | EmptyString => false
  | String ch rest =>
      if PyStr.isdigit ch then false
      else if Ascii.eqb ch "." then negb (starts_with_digit rest)
      else stray_point rest
  end.

(** A flag value that [_yes_no] leaves as it is. *)
Definition yes_no_fixed (o : option Value) : Prop :=
  ∀ v, o = Some v → _yes_no v = v.

(** A raw catalog record, as the specification's examples describe one. *)
Definition ex_raw : record :=
  <["Router Throughput" := VStr "2.5 Gbps"]>
    (<["Number of Cellular Modems" := VStr "2 (5G)"]>
       (<["Number of Recommended Users" := VStr ("1" ++ EN_DASH ++ "60")]> ∅)).

(** * Properties *)

(** ** Filter sets and the filter evaluator *)

Section FilterSets.
Implicit Types (f F : filter_set) (qp : gset string) (P : list product).

Lemma clear_loop_lookup (l : list string) attr f k :
  foldl (fun (f : filter_set) q => if decide (q ≠ attr) then delete q f else f) f l !! k
  = if decide (k ∈ l ∧ k ≠ attr) then None else f !! k.
Proof.
  revert f. induction l as [|q l IH]; intros f; simpl; [done|].
  rewrite IH. destruct (decide (k ∈ l ∧ k ≠ attr)) as [[Hin Hne]|Hn].
  { rewrite decide_True; [done|]. split; [by apply elem_of_cons; right|done]. }
  destruct (decide (k = q)) as [->|Hkq].
  - destruct (decide (q ≠ attr)) as [Hqa|Hqa].
    + rewrite lookup_delete_eq, decide_True; [done|].
      split; [by apply elem_of_cons; left|done].
    + apply dec_stable in Hqa. subst.
      rewrite decide_False; [done|]. by intros [_ ?].
  - transitivity (f !! k).
    + destruct (decide (q ≠ attr)); [by rewrite lookup_delete_ne|done].
    + rewrite decide_False; [done|]. intros [Hin Hne].
      apply elem_of_cons in Hin as [?|?]; [done|]. by apply Hn.
Qed.

(** What the quick-pick loop leaves: every other member of the group is
    gone, everything else is untouched. *)
Lemma clear_others_lookup qp attr f k :
  clear_others qp attr f !! k
  = if decide (k ∈ qp ∧ k ≠ attr) then None else f !! k.
Proof.
  unfold clear_others. rewrite clear_loop_lookup.
  apply decide_ext. by rewrite elem_of_elements.
Qed.

Lemma included_filters_lookup qp F attr v k :
  included_filters qp F attr v !! k
  = if decide (k = attr) then Some [v]
    else if decide (attr ∈ qp ∧ k ∈ qp) then None else F !! k.
Proof.
  unfold included_filters. destruct (decide (attr ∈ qp)) as [Hq|Hq].
  - rewrite clear_others_lookup. destruct (decide (k = attr)) as [->|Hk].
    + rewrite decide_False by (by intros [_ ?]). apply lookup_insert_eq.
    + rewrite lookup_insert_ne by done. apply decide_ext. tauto.
  - destruct (decide (k = attr)) as [->|Hk].
    + apply lookup_insert_eq.
    + rewrite lookup_insert_ne by done.
      rewrite decide_False; [done|]. by intros [? _].
Qed.

Lemma passes_spec F (d : record) :
  passes F d = true ↔
  ∀ attr vals, F !! attr = Some vals → Py.str (Py.get d attr (VStr "")) ∈ vals.
Proof.
  unfold passes. rewrite forallb_forall. split.
  - intros H attr vals Hl.
    specialize (H (attr, vals)). simpl in H.
    eapply bool_decide_eq_true_1, H.
    apply list_elem_of_In. by apply elem_of_map_to_list.
  - intros H [attr vals] Hin. apply bool_decide_eq_true_2, H.
    by apply elem_of_map_to_list, list_elem_of_In.
Qed.

(** Fewer constraints let at least the same records through. *)
Lemma passes_weaken F F' (d : record) :
  F' ⊆ F → passes F d = true → passes F' d = true.
Proof.
  rewrite !passes_spec. intros Hsub H attr vals Hl.
  apply H. by eapply lookup_weaken.
Qed.

Lemma filter_sublist {A} (p q : A → bool) (l : list A) :
  (∀ x, p x = true → q x = true) →
  sublist (List.filter p l) (List.filter q l).
Proof.
  intros Hpq. induction l as [|x l IH]; simpl; [constructor|].
  destruct (p x) eqn:Hp.
  - rewrite (Hpq x Hp). by constructor.
  - destruct (q x); [by constructor|done].
Qed.

Lemma filter_sublist_self {A} (p : A → bool) (l : list A) :
  sublist (List.filter p l) l.
Proof.
  induction l as [|x l IH]; simpl; [constructor|].
  destruct (p x); by constructor.
Qed.

Lemma categorical_sublist P F : sublist (categorical P F) P.
Proof.
  unfold categorical. case_decide; [done|]. apply filter_sublist_self.
Qed.

Lemma categorical_relax P F F' :
  F' ⊆ F → sublist (categorical P F) (categorical P F').
Proof.
  intros Hsub. unfold categorical.
  destruct (decide (F = ∅)) as [->|HF], (decide (F' = ∅)) as [->|H0].
  - done.
  - exfalso. apply H0, map_empty. intros i.
    destruct (F' !! i) as [vals|] eqn:E; [|done].
    eapply lookup_weaken in E; [|done]. by rewrite lookup_empty in E.
  - apply filter_sublist_self.
  - apply filter_sublist. intros p. by apply passes_weaken.
Qed.

Lemma apply_filters_unconstrained P F :
  apply_filters P F None = Some (categorical P F).
Proof. reflexivity. Qed.

(** The numeric stage keeps a sublist, and keeps more of a longer list. *)
Lemma at_least_sublist key b (l1 l2 r2 : list product) :
  sublist l1 l2 → at_least key b l2 = Some r2 →
  ∃ r1, at_least key b l1 = Some r1 ∧ sublist r1 r2.
Proof.
  intros Hsub. revert r2. induction Hsub as [|p l1 l2 Hsub IH|p l1 l2 Hsub IH];
    intros r2 Hr2; simpl in *.
  - exists []. split; [done|]. apply sublist_nil_l.
  - destruct (Py.int _) as [n|]; [|done]. simpl in *.
    destruct (at_least key b l2) as [k2|] eqn:Hk2; [|done]. simpl in *.
    destruct (IH k2 eq_refl) as (r1 & -> & Hs). simpl.
    injection Hr2 as <-. eexists; split; [done|].
    destruct (b <=? n); [by constructor|done].
  - destruct (Py.int _) as [n|]; [|done]. simpl in *.
    destruct (at_least key b l2) as [k2|] eqn:Hk2; [|done]. simpl in *.
    destruct (IH k2 eq_refl) as (r1 & -> & Hs).
    injection Hr2 as <-. eexists; split; [done|].
    destruct (b <=? n); [by constructor|done].
Qed.

Lemma at_least_self key b (l r : list product) :
  at_least key b l = Some r → sublist r l.
Proof.
  revert r. induction l as [|p l IH]; intros r; simpl.
  - intros [= <-]. constructor.
  - destruct (Py.int _) as [n|]; [|done]. simpl.
    destruct (at_least key b l) as [k|]; [|done]. simpl.
    intros [= <-]. destruct (b <=? n); constructor; by apply IH.
Qed.

Lemma constrain_sublist key ob (l1 l2 r2 : list product) :
  sublist l1 l2 → constrain key ob l2 = Some r2 →
  ∃ r1, constrain key ob l1 = Some r1 ∧ sublist r1 r2.
Proof.
  destruct ob as [b|]; simpl.
  - apply at_least_sublist.
  - intros Hsub [= <-]. eauto.
Qed.

Lemma constrain_self key ob (l r : list product) :
  constrain key ob l = Some r → sublist r l.
Proof.
  destruct ob as [b|]; simpl; [apply at_least_self|by intros [= <-]].
Qed.

End FilterSets.

Section Counting.
Implicit Types (f F : filter_set) (qp : gset string) (P : list product).

(** The toggle-off test of [count_with_toggled] holds exactly when [val] is
    the sole current selection of [attr]. *)
Lemma toggle_off_iff F attr val :
  bool_decide (val ∈ default [] (F !! attr))
  && (length (default [] (F !! attr)) =? 1)%nat = true
  ↔ F !! attr = Some [val].
Proof.
  split.
  - intros [Hin Hlen]%andb_true_iff.
    apply bool_decide_eq_true_1 in Hin. apply Nat.eqb_eq in Hlen.
    destruct (F !! attr) as [[|y [|z l]]|]; simpl in *; try done.
    apply list_elem_of_singleton in Hin. by subst.
  - intros ->. simpl. apply andb_true_iff. split; [|done].
    apply bool_decide_eq_true_2, list_elem_of_singleton. done.
Qed.

Lemma toggled_filters_off qp F attr val :
  F !! attr = Some [val] → toggled_filters qp F attr val = delete attr F.
Proof.
  intros H. unfold toggled_filters.
  apply toggle_off_iff in H. by rewrite H.
Qed.

Lemma toggled_filters_on qp F attr val :
  F !! attr ≠ Some [val] →
  toggled_filters qp F attr val = included_filters qp F attr val.
Proof.
  intros H. unfold toggled_filters, included_filters.
  destruct (_ && _) eqn:E; [|done]. by apply toggle_off_iff in E.
Qed.

Lemma included_filters_plain qp F attr v :
  (attr ∉ qp ∨ ∀ b, b ∈ qp → b ≠ attr → F !! b = None) →
  included_filters qp F attr v = <[attr := [v]]> F.
Proof.
  intros H. apply map_eq. intros k. rewrite included_filters_lookup.
  destruct (decide (k = attr)) as [->|Hk].
  - by rewrite lookup_insert_eq.
  - rewrite lookup_insert_ne by done.
    destruct (decide (attr ∈ qp ∧ k ∈ qp)) as [[Ha Hb]|]; [|done].
    destruct H as [H|H]; [done|]. symmetry. by apply H.
Qed.

(** C1 (as amended): when [attr] is outside the registered quick-pick group,
    or no other attribute of the group has a selection in [F], the count
    under inclusion is the size of [apply_filters] on [F] with the selection
    of [attr] set to the single value [v]. *)
Theorem count_with_included_consistency qp P F attr v N :
  (attr ∉ qp ∨ ∀ b, b ∈ qp → b ≠ attr → F !! b = None) →
  count_with_included qp P F attr v N
  = length <$> apply_filters P (<[attr := [v]]> F) N.
Proof.
  intros H. unfold count_with_included. by rewrite included_filters_plain.
Qed.

Lemma count_with_included_consistency_witness :
  count_with_included ex_quick_picks ex_catalog ex_series_selected
    "Modem Group" "Single" None
  = length <$> apply_filters ex_catalog
                 (<["Modem Group" := ["Single"]]> ex_series_selected) None.
Proof.
  apply count_with_included_consistency. right.
  intros b Hb Hne. unfold ex_quick_picks in Hb.
  apply elem_of_union in Hb as [Hb|Hb]; apply elem_of_singleton in Hb; subst.
  - done.
  - reflexivity.
Defined.

(** C1 (as stated) fails inside a quick-pick group: with [5G support = Yes]
    selected, counting [Modem Group = Single] drops the 5G selection, so the
    router without 5G is counted, while the filter set with both selections
    matches nothing. *)
Lemma count_with_included_drops_group :
  count_with_included ex_quick_picks ex_catalog ex_5g_selected
    "Modem Group" "Single" None = Some 1%nat
  ∧ length <$> apply_filters ex_catalog
                 (<["Modem Group" := ["Single"]]> ex_5g_selected) None
    = Some 0%nat
  ∧ count_with_included ex_quick_picks ex_catalog ex_5g_selected
      "Modem Group" "Single" None
    ≠ length <$> apply_filters ex_catalog
                   (<["Modem Group" := ["Single"]]> ex_5g_selected) None.
Proof.
  split; [vm_compute; reflexivity|]. split; [vm_compute; reflexivity|].
  vm_compute. discriminate.
Qed.

(** C2: without numeric thresholds [apply_filters] returns at most as many
    products as it was given, and deleting the constraint of any attribute
    [a] from the filter set never gives fewer results. *)
Theorem apply_filters_relaxation P F :
  ∃ R, apply_filters P F None = Some R
       ∧ (length R ≤ length P)%nat
       ∧ ∀ a, ∃ R', apply_filters P (delete a F) None = Some R'
                   ∧ (length R ≤ length R')%nat.
Proof.
  exists (categorical P F). split; [done|]. split.
  - apply sublist_length, categorical_sublist.
  - intros a. exists (categorical P (delete a F)). split; [done|].
    apply sublist_length, categorical_relax, delete_subseteq.
Qed.

(** The same relaxation under numeric thresholds, whenever the evaluation
    with the smaller filter set converts every numeric field. *)
Lemma apply_filters_relaxation_numeric P F F' N R' :
  F' ⊆ F → apply_filters P F' N = Some R' →
  ∃ R, apply_filters P F N = Some R ∧ sublist R R' ∧ sublist R' P.
Proof.
  unfold apply_filters. intros Hsub H.
  set (nf := default (NumericFilters None None None) N) in *.
  destruct (constrain "Router Throughput (Mbps)" _ (categorical P F'))
    as [r1'|] eqn:E1; [|done]. simpl in H.
  destruct (constrain "SpeedFusion (Mbps)" _ r1') as [r2'|] eqn:E2; [|done].
  simpl in H.
  destruct (constrain_sublist _ _ _ _ _ (categorical_relax P F F' Hsub) E1)
    as (r1 & -> & S1). simpl.
  destruct (constrain_sublist _ _ _ _ _ S1 E2) as (r2 & -> & S2). simpl.
  destruct (constrain_sublist _ _ _ _ _ S2 H) as (r3 & -> & S3).
  exists r3. split; [done|]. split; [done|].
  etrans; [by eapply constrain_self|].
  etrans; [by eapply constrain_self|].
  etrans; [by eapply constrain_self|]. apply categorical_sublist.
Qed.

(** C3 (as amended): in a quick-pick group containing the distinct
    attributes [A], [B] and [C], toggling [A = x] when [x] is not already
    the sole selection of [A] builds a filter set without any selection for
    [B] or for [C]. *)
Theorem toggle_on_clears_group qp F (A B C x : string) :
  A ∈ qp → B ∈ qp → C ∈ qp → B ≠ A → C ≠ A →
  F !! A ≠ Some [x] →
  toggled_filters qp F A x !! B = None ∧ toggled_filters qp F A x !! C = None.
Proof.
  intros HA HB HC HBA HCA Hoff.
  rewrite toggled_filters_on by done.
  rewrite !included_filters_lookup.
  rewrite (decide_False (P := B = A)), (decide_False (P := C = A)) by done.
  by rewrite !decide_True.
Qed.

Lemma toggle_on_clears_group_witness :
  toggled_filters ex_group_abc ex_filters_ab "A" "z" !! "B" = None
  ∧ toggled_filters ex_group_abc ex_filters_ab "A" "z" !! "C" = None.
Proof.
  apply toggle_on_clears_group.
  - by vm_compute.
  - by vm_compute.
  - by vm_compute.
  - discriminate.
  - discriminate.
  - vm_compute. discriminate.
Defined.

(** C3 (as stated) fails when [A = x] is the current sole selection: the
    toggle removes the constraint on [A] and leaves the selection of [B]. *)
Lemma toggle_off_keeps_group :
  is_Some (ex_filters_ab !! "B")
  ∧ ¬ (toggled_filters ex_group_abc ex_filters_ab "A" "x" !! "B" = None
       ∧ toggled_filters ex_group_abc ex_filters_ab "A" "x" !! "C" = None).
Proof.
  split; [by eexists|]. intros [H _]. vm_compute in H. discriminate H.
Qed.

End Counting.

(** ** The request parser *)

Section ParseFilters.
Implicit Types (f F : filter_set) (args : multidict).

Lemma select_first_other args f k j :
  j ≠ k → select_first args f k !! j = f !! j.
Proof.
  intros Hne. unfold select_first.
  destruct (bool_decide _); [done|].
  destruct (getlist k args); [done|]. by rewrite lookup_insert_ne.
Qed.

Lemma select_first_here args f k v rest :
  k ∉ RESERVED_ARGS → getlist k args = v :: rest →
  select_first args f k !! k = Some [v].
Proof.
  intros Hres Hg. unfold select_first.
  rewrite bool_decide_eq_false_2 by done. rewrite Hg. apply lookup_insert_eq.
Qed.

(** Once the first value of [k] is recorded, the rest of the loop keeps it;
    and the loop records it when it reaches [k]. *)
Lemma parse_loop_first args (l : list string) f k v rest :
  k ∉ RESERVED_ARGS → getlist k args = v :: rest →
  f !! k = Some [v] ∨ k ∈ l →
  foldl (select_first args) f l !! k = Some [v].
Proof.
  intros Hres Hg. revert f. induction l as [|q l IH]; intros f H; simpl.
  - destruct H as [H|H]; [done|]. by apply elem_of_nil in H.
  - apply IH. destruct (decide (k = q)) as [<-|Hkq].
    + left. by eapply select_first_here.
    + destruct H as [H|H].
      * left. by rewrite select_first_other.
      * apply elem_of_cons in H as [?|?]; [done|by right].
Qed.

Lemma getlist_key args k v :
  v ∈ getlist k args → k ∈ keys args.
Proof.
  unfold getlist, keys. intros H.
  apply list_elem_of_fmap in H as ([k' v'] & -> & Hin).
  apply list_elem_of_In, filter_In in Hin as [Hin Heq].
  apply String.eqb_eq in Heq. simpl in Heq. subst.
  apply elem_of_remove_dups, list_elem_of_fmap.
  exists (k, v'). split; [done|]. by apply list_elem_of_In.
Qed.

(** C8 (as amended): an attribute supplied with several values is mapped to
    the single value that was supplied first. *)
Theorem parse_filters_first_wins args k v rest :
  k ∉ RESERVED_ARGS → getlist k args = v :: rest →
  parse_filters args !! k = Some [v].
Proof.
  intros Hres Hg. unfold parse_filters.
  eapply parse_loop_first; [done..|]. right.
  apply (getlist_key args k v). rewrite Hg. by left.
Qed.

Lemma parse_filters_first_wins_witness :
  parse_filters ex_args !! "Series" = Some ["A"].
Proof.
  apply (parse_filters_first_wins ex_args "Series" "A" ["B"]).
  - apply (bool_decide_eq_false_1 ("Series" ∈ RESERVED_ARGS)). reflexivity.
  - reflexivity.
Defined.

(** C8 (as stated) fails: of the two values supplied for [Series] the last
    is [B], and the filter set holds [A]. *)
Lemma parse_filters_not_last :
  getlist "Series" ex_args = ["A"; "B"]
  ∧ last (getlist "Series" ex_args) = Some "B"
  ∧ parse_filters ex_args !! "Series" ≠ Some ["B"].
Proof.
  split; [reflexivity|]. split; [reflexivity|].
  vm_compute. discriminate.
Qed.

Lemma select_first_single_valued args f k :
  single_valued f → single_valued (select_first args f k).
Proof.
  intros Hf. unfold select_first.
  destruct (bool_decide _); [done|].
  destruct (getlist k args) as [|v l]; [done|].
  apply map_Forall_insert_2; [by exists v|done].
Qed.

Lemma parse_filters_single_valued args : single_valued (parse_filters args).
Proof.
  unfold parse_filters. generalize (keys args). intros l.
  assert (single_valued ∅) as H by apply map_Forall_empty.
  revert H. generalize (∅ : filter_set). induction l as [|q l IH]; intros f Hf.
  - done.
  - simpl. by apply IH, select_first_single_valued.
Qed.

Lemma clear_others_single_valued (qp : gset string) attr f :
  single_valued f → single_valued (clear_others qp attr f).
Proof.
  intros Hf k vals. rewrite clear_others_lookup.
  destruct (decide _); [done|]. apply Hf.
Qed.

Lemma included_filters_single_valued (qp : gset string) F attr v :
  single_valued F → single_valued (included_filters qp F attr v).
Proof.
  intros HF. unfold included_filters.
  assert (single_valued (<[attr := [v]]> F)) as H.
  { apply map_Forall_insert_2; [by exists v|done]. }
  destruct (decide _); [by apply clear_others_single_valued|done].
Qed.

Lemma toggled_filters_single_valued (qp : gset string) F attr v :
  single_valued F → single_valued (toggled_filters qp F attr v).
Proof.
  intros HF. destruct (decide (F !! attr = Some [v])) as [H|H].
  - rewrite toggled_filters_off by done. by apply map_Forall_delete.
  - rewrite toggled_filters_on by done. by apply included_filters_single_valued.
Qed.

(** C10: the filter set produced by [parse_filters] maps every attribute to a
    singleton list, and from a filter set with that property both counters
    build a hypothetical filter set with it: no step introduces a selection
    of several values. *)
Theorem filter_sets_single_valued args (qp : gset string) F attr v :
  single_valued F →
  single_valued (parse_filters args)
  ∧ single_valued (toggled_filters qp F attr v)
  ∧ single_valued (included_filters qp F attr v).
Proof.
  intros HF. split; [apply parse_filters_single_valued|]. split.
  - by apply toggled_filters_single_valued.
  - by apply included_filters_single_valued.
Qed.

Lemma filter_sets_single_valued_witness :
  single_valued (parse_filters ex_args)
  ∧ single_valued (toggled_filters ex_quick_picks ex_5g_selected
                     "Modem Group" "Single")
  ∧ single_valued (included_filters ex_quick_picks ex_5g_selected
                     "Modem Group" "Single").
Proof.
  apply filter_sets_single_valued.
  apply map_Forall_insert_2; [by exists "Yes"|apply map_Forall_empty].
Defined.

End ParseFilters.

(** ** Sorting *)

Lemma StronglySorted_weaken {A} (R1 R2 : A → A → Prop) (l : list A) :
  (∀ x y, R1 x y → R2 x y) → StronglySorted R1 l → StronglySorted R2 l.
Proof.
  intros HR. induction 1 as [|x l Hl IH Hx]; constructor; [done|].
  eapply Forall_impl; [exact Hx|]. intros y. apply HR.
Qed.

Section InsertionSort.
Context {K A : Type} (ltb : K → K → bool).
Hypothesis ltb_asym : ∀ a b, ltb a b = true → ltb b a = false.
Hypothesis ltb_trans :
  ∀ a b c, ltb b a = false → ltb c b = false → ltb c a = false.

Lemma insert_by_perm (x : K * A) l : insert_by ltb x l ≡ₚ x :: l.
Proof.
  induction l as [|y l IH]; simpl; [done|].
  destruct (ltb y.1 x.1); [|done]. rewrite IH. apply Permutation_swap.
Qed.

Lemma sort_decorated_perm (l : list (K * A)) : sort_decorated ltb l ≡ₚ l.
Proof.
  induction l as [|x l IH]; simpl; [done|]. by rewrite insert_by_perm, IH.
Qed.

Lemma insert_by_sorted (x : K * A) l :
  StronglySorted (key_le ltb) l → StronglySorted (key_le ltb) (insert_by ltb x l).
Proof.
  induction 1 as [|y l Hl IH Hy]; simpl.
  - repeat constructor.
  - destruct (ltb y.1 x.1) eqn:E.
    + constructor; [done|]. rewrite insert_by_perm.
      constructor; [by apply ltb_asym|done].
    + constructor; [by constructor|]. constructor; [done|].
      eapply Forall_impl; [exact Hy|]. intros z Hz.
      unfold key_le in *. by eapply ltb_trans.
Qed.

Lemma sort_decorated_sorted (l : list (K * A)) :
  StronglySorted (key_le ltb) (sort_decorated ltb l).
Proof.
  induction l as [|x l IH]; simpl; [constructor|]. by apply insert_by_sorted.
Qed.

(** What [sorted(l, key=...)] returns when every key can be computed: a
    rearrangement of [l] in which no element has a key below the key of an
    element before it. *)
Lemma py_sorted_spec (key : A → option K) (l : list A) :
  Forall (fun x => is_Some (key x)) l →
  ∃ R, py_sorted ltb key l = Some R ∧ R ≡ₚ l
       ∧ StronglySorted
           (fun x y => ∃ kx ky, key x = Some kx ∧ key y = Some ky
                                ∧ ltb ky kx = false) R.
Proof.
  intros Hkeys. unfold py_sorted.
  destruct (mapM (fun x => k ← key x; Some (k, x)) l) as [d|] eqn:Hd.
  2:{ apply mapM_None in Hd. apply Exists_exists in Hd as (x & Hx & Hnone).
      rewrite Forall_forall in Hkeys. destruct (Hkeys x Hx) as [k Hk].
      rewrite Hk in Hnone. done. }
  apply mapM_Some in Hd. simpl.
  assert (d.*2 = l ∧ Forall (fun kx => key kx.2 = Some kx.1) d) as [Hl Hinv].
  { clear Hkeys. induction Hd as [|x [k x'] l d Hx Hd IH]; [done|].
    destruct (key x) as [k0|] eqn:Hk; [|done]. simpl in Hx.
    injection Hx as <- <-. destruct IH as [<- IH].
    split; [done|]. by constructor. }
  eexists. split; [done|]. split.
  { by rewrite sort_decorated_perm, Hl. }
  assert (Forall (fun kx => key kx.2 = Some kx.1) (sort_decorated ltb d)) as Hinv'.
  { by rewrite sort_decorated_perm. }
  pose proof (sort_decorated_sorted d) as Hs.
  induction Hs as [|y s Hs IH Hy]; simpl; [constructor|].
  apply Forall_cons in Hinv' as [Hky Hinv'].
  constructor; [by apply IH|].
  apply Forall_fmap. apply Forall_forall. intros z Hz. simpl.
  rewrite Forall_forall in Hy, Hinv'. exists y.1, z.1.
  split; [done|]. split; [by apply Hinv'|]. by apply Hy.
Qed.

Lemma py_sorted_total_key (key : A → K) (l : list A) :
  ∃ R, py_sorted ltb (fun x => Some (key x)) l = Some R ∧ R ≡ₚ l
       ∧ StronglySorted (fun x y => ltb (key y) (key x) = false) R.
Proof.
  destruct (py_sorted_spec (fun x => Some (key x)) l) as (R & HR & Hp & Hs).
  { apply Forall_forall. by eexists. }
  exists R. split; [done|]. split; [done|].
  eapply StronglySorted_weaken; [|exact Hs].
  intros x y (kx & ky & [= <-] & [= <-] & H). done.
Qed.

(** The sort is stable: elements with the same key stay in input order. *)
Lemma insert_by_stable `{EqDecision K} (k : K) (x : K * A) l :
  filter (fun y : K * A => y.1 = k) (insert_by ltb x l)
  = filter (fun y : K * A => y.1 = k) (x :: l).
Proof.
  induction l as [|y l IH]; simpl; [done|].
  destruct (ltb y.1 x.1) eqn:E; [|done].
  rewrite (filter_cons _ y), IH, !(filter_cons _ x), (filter_cons _ y).
  destruct (decide (y.1 = k)) as [Hy|Hy], (decide (x.1 = k)) as [Hx|Hx];
    try done.
  exfalso. rewrite Hy, Hx in E. pose proof (ltb_asym _ _ E) as E'. congruence.
Qed.

Lemma sort_decorated_stable `{EqDecision K} (k : K) (l : list (K * A)) :
  filter (fun y : K * A => y.1 = k) (sort_decorated ltb l)
  = filter (fun y : K * A => y.1 = k) l.
Proof.
  induction l as [|x l IH]; simpl; [done|].
  by rewrite insert_by_stable, !filter_cons, IH.
Qed.

End InsertionSort.

(** The orders of the sort keys: [str] and the tuples [(int, str)]. *)

Lemma string_ltb_false (a b : string) : String.ltb b a = false ↔ String.le a b.
Proof.
  unfold String.le, String.ltb, String.leb.
  rewrite (String.compare_antisym a b).
  destruct (String.compare b a); simpl; split; try done.
Qed.

Lemma string_ltb_asym (a b : string) :
  String.ltb a b = true → String.ltb b a = false.
Proof.
  unfold String.ltb. rewrite (String.compare_antisym b a).
  by destruct (String.compare a b).
Qed.

Lemma string_ltb_trans (a b c : string) :
  String.ltb b a = false → String.ltb c b = false → String.ltb c a = false.
Proof.
  rewrite !string_ltb_false. intros Hab Hbc. by etrans.
Qed.

Lemma tuple_ltb_false (x y : Z * string) :
  tuple_ltb y x = false ↔ x.1 < y.1 ∨ (x.1 = y.1 ∧ String.le x.2 y.2).
Proof.
  unfold tuple_ltb. rewrite orb_false_iff, andb_false_iff.
  rewrite Z.ltb_ge, Z.eqb_neq, string_ltb_false. split.
  - intros [Hle [Hne|Hs]]; [left; lia|].
    destruct (decide (x.1 = y.1)); [by right|left; lia].
  - intros [Hlt|[Heq Hs]]; (split; [lia|]); [left; lia|by right].
Qed.

Lemma tuple_ltb_asym (a b : Z * string) :
  tuple_ltb a b = true → tuple_ltb b a = false.
Proof.
  unfold tuple_ltb. rewrite orb_true_iff, andb_true_iff, Z.ltb_lt, Z.eqb_eq.
  intros H. apply tuple_ltb_false.
  destruct H as [H|[H Hs]]; [by left|right]. split; [done|].
  by apply string_ltb_false, string_ltb_asym.
Qed.

Lemma tuple_ltb_trans (a b c : Z * string) :
  tuple_ltb b a = false → tuple_ltb c b = false → tuple_ltb c a = false.
Proof.
  rewrite !tuple_ltb_false.
  intros [H1|[H1 S1]] [H2|[H2 S2]]; try (left; lia).
  right. split; [lia|]. by etrans.
Qed.

Section Sorter.
Implicit Types (P R : list product).

Lemma sort_by_name P :
  ∃ R, py_sorted String.ltb by_name P = Some R ∧ R ≡ₚ P
       ∧ StronglySorted name_le R.
Proof.
  destruct (py_sorted_total_key String.ltb string_ltb_asym string_ltb_trans
              (fun x : product => PyStr.lower x.1) P) as (R & HR & Hp & Hs).
  exists R. split; [done|]. split; [done|].
  eapply StronglySorted_weaken; [|exact Hs].
  intros x y H. by apply string_ltb_false.
Qed.

Lemma sort_by_metric field P :
  Forall (numeric_field field) P →
  ∃ R, py_sorted tuple_ltb (by_metric field) P = Some R ∧ R ≡ₚ P
       ∧ StronglySorted (metric_desc_then_name field) R.
Proof.
  intros Hnum.
  destruct (py_sorted_spec tuple_ltb tuple_ltb_asym tuple_ltb_trans
              (by_metric field) P) as (R & HR & Hp & Hs).
  { eapply Forall_impl; [exact Hnum|]. intros p [n Hn].
    unfold by_metric. rewrite Hn. by eexists. }
  exists R. split; [done|]. split; [done|].
  eapply StronglySorted_weaken; [|exact Hs].
  intros p q (kp & kq & Hkp & Hkq & Hlt).
  unfold by_metric in Hkp, Hkq. unfold metric_desc_then_name, metric, name_le.
  destruct (Py.int (Py.get p.2 field (VInt 0))) as [np|]; [|done].
  destruct (Py.int (Py.get q.2 field (VInt 0))) as [nq|]; [|done].
  simpl in *. injection Hkp as <-. injection Hkq as <-.
  apply tuple_ltb_false in Hlt. simpl in Hlt.
  destruct Hlt as [H|[H Hs']]; [left; lia|right]. split; [lia|done].
Qed.

(** C5: when the derived router throughput of every product converts with
    [int], sorting with key ["router_desc"] returns a rearrangement of the
    list that is non-increasing in that field, products with equal
    throughput being in case-insensitive name order; sorting with an absent
    key returns the rearrangement in case-insensitive name order. *)
Theorem sort_products_order P :
  Forall (numeric_field "Router Throughput (Mbps)") P →
  (∃ R, sort_products P (Some "router_desc") = Some R ∧ R ≡ₚ P
        ∧ StronglySorted (metric_desc_then_name "Router Throughput (Mbps)") R)
  ∧ (∃ R, sort_products P None = Some R ∧ R ≡ₚ P ∧ StronglySorted name_le R).
Proof.
  intros Hnum. split.
  - by apply sort_by_metric.
  - apply sort_by_name.
Qed.

(** C9 (as amended): a sort key that is not empty and is none of
    ["name_asc"], ["router_desc"], ["speedfusion_desc"], ["users_desc"]
    returns the input list unchanged, without error. *)
Theorem sort_products_unrecognized P (key : string) :
  key ≠ "" → key ∉ RECOGNIZED_SORT_KEYS →
  sort_products P (Some key) = Some P.
Proof.
  intros Hne Hkey. unfold sort_products.
  assert (PyStr.nonempty key = true) as -> by (by destruct key).
  assert (∀ k, k ∈ RECOGNIZED_SORT_KEYS → String.eqb key k = false) as Hk.
  { intros k Hin. apply String.eqb_neq. by intros ->. }
  unfold RECOGNIZED_SORT_KEYS in Hk.
  rewrite !Hk; [done|repeat (first [by left|right])..].
Qed.

Lemma sort_products_order_witness :
  (∃ R, sort_products ex_routers (Some "router_desc") = Some R
        ∧ R ≡ₚ ex_routers
        ∧ StronglySorted (metric_desc_then_name "Router Throughput (Mbps)") R)
  ∧ (∃ R, sort_products ex_routers None = Some R ∧ R ≡ₚ ex_routers
          ∧ StronglySorted name_le R).
Proof.
  apply sort_products_order.
  repeat constructor; by eexists.
Defined.

Lemma sort_products_unrecognized_witness :
  sort_products ex_unsorted (Some "price_asc") = Some ex_unsorted.
Proof.
  apply sort_products_unrecognized.
  - discriminate.
  - apply (bool_decide_eq_false_1 ("price_asc" ∈ RECOGNIZED_SORT_KEYS)).
    reflexivity.
Defined.

(** C9 (as stated) fails for the empty key, which is present and is none of
    the recognized keys: it is treated like an absent key and the list comes
    back sorted by name. *)
Lemma sort_products_empty_key :
  ("" ∉ RECOGNIZED_SORT_KEYS)
  ∧ sort_products ex_unsorted (Some "") = Some [("a", ∅); ("b", ∅)]
  ∧ sort_products ex_unsorted (Some "") ≠ Some ex_unsorted.
Proof.
  split; [|split].
  - apply (bool_decide_eq_false_1 ("" ∈ RECOGNIZED_SORT_KEYS)). reflexivity.
  - reflexivity.
  - vm_compute. discriminate.
Qed.

End Sorter.

(** ** The salience ranker *)

Section Salience.
Implicit Types (idx : gmap string (gset string)).

Lemma StronglySorted_fmap_strong {A B} (R1 : A → A → Prop) (R2 : B → B → Prop)
    (f : A → B) (l : list A) :
  (∀ x y, x ∈ l → y ∈ l → R1 x y → R2 (f x) (f y)) →
  StronglySorted R1 l → StronglySorted R2 (f <$> l).
Proof.
  intros HR Hs. induction Hs as [|x l Hl IH Hx]; simpl; [constructor|].
  constructor.
  - apply IH. intros y z Hy Hz. apply HR; by right.
  - apply Forall_fmap, Forall_forall. intros y Hy.
    rewrite Forall_forall in Hx. apply HR; [by left|by right|by apply Hx].
Qed.

(** The index maps an attribute that is not skipped to the [str] of the
    values that the products have for it, whatever the order in which the
    records are traversed. *)
Lemma index_add_values k v idx a (s : string) :
  s ∈ index_values (index_add k v idx) a ↔
  s ∈ index_values idx a ∨ (a = k ∧ ¬ index_skips k ∧ s = Py.str v).
Proof.
  unfold index_add, index_values, index_skips.
  destruct (bool_decide (k ∈ INDEX_SKIPPED)) eqn:E1; simpl.
  { apply bool_decide_eq_true_1 in E1.
    split; [by left|]. intros [?|(_ & Hn & _)]; [done|]. destruct Hn. by left. }
  destruct (String.eqb k PRICE_MATRIX_KEY) eqn:E2.
  { apply String.eqb_eq in E2.
    split; [by left|]. intros [?|(_ & Hn & _)]; [done|]. destruct Hn. by right. }
  apply bool_decide_eq_false_1 in E1. apply String.eqb_neq in E2.
  destruct (decide (a = k)) as [->|Hne].
  - rewrite lookup_insert_eq. simpl. rewrite elem_of_union, elem_of_singleton.
    split.
    + intros [?|?]; [by left|right]. split; [done|]. split; [|done].
      by intros [?|?].
    + intros [?|(_ & _ & ?)]; [by left|by right].
  - rewrite lookup_insert_ne by done.
    split; [by left|]. by intros [?|(? & _)].
Qed.

Lemma index_record_values (d : record) idx a (s : string) :
  s ∈ index_values (map_fold index_add idx d) a ↔
  s ∈ index_values idx a
  ∨ (¬ index_skips a ∧ ∃ v, d !! a = Some v ∧ s = Py.str v).
Proof.
  revert a s.
  apply (map_fold_weak_ind
           (fun r (m : record) => ∀ a (s : string),
              s ∈ index_values r a ↔
              s ∈ index_values idx a
              ∨ (¬ index_skips a ∧ ∃ v, m !! a = Some v ∧ s = Py.str v))).
  - intros a s. split; [by left|].
    intros [?|(_ & v & Hv & _)]; [done|]. by rewrite lookup_empty in Hv.
  - intros k v m r Hk IH a s. rewrite index_add_values, IH.
    destruct (decide (a = k)) as [->|Hne].
    + rewrite lookup_insert_eq, Hk. split.
      * intros [[?|(_ & v0 & Hv0 & _)]|(_ & Hs & ->)]; [by left|done|].
        right. split; [done|]. by exists v.
      * intros [?|(Hs & v0 & [= <-] & ->)]; [by left; left|by right].
    + rewrite lookup_insert_ne by done. split.
      * by intros [H|(? & _)].
      * by left.
Qed.

Lemma build_attribute_index_values (products : list product) a (s : string) :
  s ∈ index_values (build_attribute_index products) a ↔
  ¬ index_skips a
  ∧ ∃ p v, p ∈ products ∧ p.2 !! a = Some v ∧ s = Py.str v.
Proof.
  unfold build_attribute_index.
  assert (∀ idx,
    s ∈ index_values
          (foldl (fun idx (p : product) => map_fold index_add idx p.2)
                 idx products) a ↔
    s ∈ index_values idx a
    ∨ (¬ index_skips a
       ∧ ∃ p v, p ∈ products ∧ p.2 !! a = Some v ∧ s = Py.str v)) as H.
  { induction products as [|p ps IH]; intros idx; simpl.
    - split; [by left|]. intros [?|(_ & p & v & Hp & _)]; [done|].
      by apply elem_of_nil in Hp.
    - rewrite IH, index_record_values. split.
      + intros [[?|(Hs & v & Hv & ->)]|(Hs & q & v & Hq & Hv & ->)].
        * by left.
        * right. split; [done|]. exists p, v. split; [by left|done].
        * right. split; [done|]. exists q, v. split; [by right|done].
      + intros [?|(Hs & q & v & Hq & Hv & ->)]; [by left; left|].
        apply elem_of_cons in Hq as [->|Hq].
        * left. right. split; [done|]. by exists v.
        * right. split; [done|]. by exists q, v. }
  rewrite H. unfold index_values at 1. rewrite lookup_empty. simpl.
  split; [|by right]. intros [Hin|?]; [|done]. by apply elem_of_empty in Hin.
Qed.

Lemma elem_of_salience_scores idx a n :
  (a, n) ∈ salience_scores idx ↔
  ∃ vs, idx !! a = Some vs ∧ n = Z.of_nat (size vs) ∧ 1 < n.
Proof.
  unfold salience_scores. rewrite list_elem_of_omap. split.
  - intros ([a' vs] & Hin & Hf). apply elem_of_map_to_list in Hin.
    destruct (Z.of_nat (size vs) <=? 1) eqn:E; [done|].
    injection Hf as -> <-. apply Z.leb_gt in E. by exists vs.
  - intros (vs & Hl & -> & Hn). exists (a, vs).
    split; [by apply elem_of_map_to_list|].
    apply Z.leb_gt in Hn. by rewrite Hn.
Qed.

Lemma salience_scores_count idx a n :
  (a, n) ∈ salience_scores idx → n = distinct_count idx a ∧ 1 < n.
Proof.
  intros (vs & Hl & -> & Hn)%elem_of_salience_scores.
  unfold distinct_count. by rewrite Hl.
Qed.

Lemma NoDup_fst_omap {A B C} (f : A * B → option (A * C)) (l : list (A * B)) :
  (∀ x y, f x = Some y → y.1 = x.1) →
  NoDup (l.*1) → NoDup ((omap f l).*1).
Proof.
  intros Hf. induction l as [|x l IH]; simpl; [done|].
  intros [Hx Hl]%NoDup_cons. destruct (f x) as [y|] eqn:E; simpl; [|by apply IH].
  apply NoDup_cons. split; [|by apply IH].
  rewrite (Hf _ _ E). intros Hin. apply Hx.
  apply list_elem_of_fmap in Hin as (z & Hz & Hin).
  apply list_elem_of_omap in Hin as (w & Hw & Hfw).
  apply list_elem_of_fmap. exists w. split; [|done].
  rewrite Hz. by apply Hf.
Qed.

Lemma NoDup_salience_scores idx : NoDup ((salience_scores idx).*1).
Proof.
  apply NoDup_fst_omap; [|apply NoDup_fst_map_to_list].
  intros [a vs] [b n]. simpl.
  destruct (Z.of_nat (size vs) <=? 1); [done|]. by intros [= <- _].
Qed.

(** The scores of [rank], sorted on their keys. *)
Lemma rank_scores idx :
  ∃ R, rank idx = R.*1 ∧ R ≡ₚ salience_scores idx
       ∧ StronglySorted
           (fun x y => tuple_ltb (score_key y) (score_key x) = false) R.
Proof.
  destruct (py_sorted_total_key tuple_ltb tuple_ltb_asym tuple_ltb_trans
              score_key (salience_scores idx)) as (R & HR & Hp & Hs).
  exists R. split; [|done]. unfold rank. by rewrite HR.
Qed.

Lemma elem_of_rank idx a : a ∈ rank idx ↔ 1 < distinct_count idx a.
Proof.
  destruct (rank_scores idx) as (R & -> & Hp & _).
  rewrite list_elem_of_fmap. split.
  - intros ([a' n] & -> & Hin). rewrite Hp in Hin.
    apply salience_scores_count in Hin as [Hc Hn]. simpl. by rewrite <- Hc.
  - intros Hn. exists (a, distinct_count idx a). split; [done|].
    rewrite Hp. apply elem_of_salience_scores.
    unfold distinct_count in *. destruct (idx !! a) as [vs|]; [|done].
    by exists vs.
Qed.

(** The ranking of any index: exactly the attributes with more than one
    distinct value, each once, by count descending then by name. *)
Lemma rank_spec idx :
  (∀ a, a ∈ rank idx ↔ 1 < distinct_count idx a)
  ∧ NoDup (rank idx)
  ∧ StronglySorted (salience_order idx) (rank idx).
Proof.
  split; [apply elem_of_rank|].
  destruct (rank_scores idx) as (R & -> & Hp & Hs). split.
  - rewrite Hp. apply NoDup_salience_scores.
  - eapply StronglySorted_fmap_strong; [|exact Hs].
    intros [a n] [b m] Ha Hb Hlt. rewrite Hp in Ha, Hb.
    apply salience_scores_count in Ha as [-> _].
    apply salience_scores_count in Hb as [-> _].
    apply tuple_ltb_false in Hlt. unfold salience_order. simpl in *.
    destruct Hlt as [H|[H Hs']]; [left; lia|right]. split; [lia|done].
Qed.

(** C7 (as amended): over the attribute index of the products,
    [compute_salience] returns exactly the attributes with more than one
    distinct value, each once, ordered by distinct-value count descending,
    ties broken by attribute name ascending in the (case-sensitive) order of
    [str]. *)
Theorem compute_salience_ranking (products_all : list product) :
  (∀ a, a ∈ compute_salience products_all
        ↔ 1 < distinct_count (build_attribute_index products_all) a)
  ∧ NoDup (compute_salience products_all)
  ∧ StronglySorted (salience_order (build_attribute_index products_all))
      (compute_salience products_all).
Proof. apply rank_spec. Qed.

(** The ranking does not depend on the order in which the index is
    traversed: the sort keys of distinct attributes differ. *)
Lemma rank_any_order idx (scores : list (string * Z)) :
  scores ≡ₚ salience_scores idx →
  (default [] (py_sorted tuple_ltb (fun x => Some (score_key x)) scores)).*1
  = rank idx.
Proof.
  intros Hperm.
  destruct (py_sorted_total_key tuple_ltb tuple_ltb_asym tuple_ltb_trans
              score_key scores) as (R' & -> & Hp' & Hs').
  destruct (rank_scores idx) as (R & -> & Hp & Hs). simpl. f_equal.
  eapply StronglySorted_unique_strong; [|exact Hs'|exact Hs|].
  - intros [a n] [b m] _ _ H1 H2.
    apply tuple_ltb_false in H1, H2. simpl in *.
    assert (n = m) as -> by lia. f_equal.
    destruct H1 as [?|[_ H1]]; [lia|]. destruct H2 as [?|[_ H2]]; [lia|].
    by apply (anti_symm String.le).
  - by rewrite Hp', Hp.
Qed.

(** C7 (as stated) fails on the tie-break: ["Band"] and ["antenna"] both
    have two values, and the ranking puts ["Band"] first although
    ["antenna"] precedes it when case is ignored. *)
Lemma compute_salience_case_sensitive :
  compute_salience ex_two_attrs = ["Band"; "antenna"]
  ∧ ¬ StronglySorted (salience_order_ci (build_attribute_index ex_two_attrs))
        (compute_salience ex_two_attrs).
Proof.
  assert (compute_salience ex_two_attrs = ["Band"; "antenna"]) as Hc
    by reflexivity.
  split; [done|]. rewrite Hc. intros Hs.
  apply StronglySorted_inv in Hs as [_ Hs].
  apply Forall_cons in Hs as [[H|[_ H]] _]; vm_compute in H; done.
Qed.

End Salience.

(** ** Throughput parsing *)

Section Throughput.

Lemma string_app_nil_r (s : string) : s ++ "" = s.
Proof.
  induction s as [|c s IH]; [done|].
  change (String c (s ++ "") = String c s). by rewrite IH.
Qed.

Lemma string_app_assoc (s t u : string) : (s ++ t) ++ u = s ++ (t ++ u).
Proof.
  induction s as [|c s IH]; [done|].
  change (String c ((s ++ t) ++ u) = String c (s ++ (t ++ u))). by rewrite IH.
Qed.

Lemma nonempty_app_r (s t : string) :
  PyStr.nonempty t = true → PyStr.nonempty (s ++ t) = true.
Proof. by destruct s, t. Qed.

(** Once a character has been collected, the loop of [_parse_mbps] reads the
    rest of the number and stops. *)
Lemma mbps_scan_tail (num : string) (dot_seen : bool) (s : string) :
  PyStr.nonempty num = true →
  mbps_scan num dot_seen s = num ++ number_tail dot_seen s.
Proof.
  revert num dot_seen. induction s as [|ch rest IH]; intros num d Hnum; simpl.
  - by rewrite string_app_nil_r.
  - destruct (PyStr.isdigit ch).
    + rewrite IH by (by apply nonempty_app_r). by rewrite string_app_assoc.
    + destruct (Ascii.eqb ch "." && negb d) eqn:E.
      * rewrite IH by (by apply nonempty_app_r).
        apply andb_true_iff in E as [->%Ascii.eqb_eq _].
        by rewrite string_app_assoc.
      * rewrite Hnum. by rewrite string_app_nil_r.
Qed.

Lemma number_tail_no_digit (s : string) :
  starts_with_digit s = false → number_tail true s = "".
Proof.
  destruct s as [|c s]; [done|]. simpl. intros ->.
  by rewrite andb_false_r.
Qed.

(** Without a stray point the loop collects the first decimal number. *)
Lemma mbps_scan_first_number (s : string) :
  stray_point s = false → mbps_scan "" false s = first_decimal_number s.
Proof.
  induction s as [|ch rest IH]; simpl; [done|].
  destruct (PyStr.isdigit ch).
  - intros _. by rewrite mbps_scan_tail.
  - destruct (Ascii.eqb ch ".") eqn:E; simpl.
    + intros H. apply negb_false_iff in H. rewrite H.
      apply Ascii.eqb_eq in E as ->. by rewrite mbps_scan_tail.
    + exact IH.
Qed.

(** With a stray point the loop collects the point alone. *)
Lemma mbps_scan_stray (s : string) :
  stray_point s = true → mbps_scan "" false s = ".".
Proof.
  induction s as [|ch rest IH]; simpl; [done|].
  destruct (PyStr.isdigit ch); [done|].
  destruct (Ascii.eqb ch ".") eqn:E; simpl.
  - intros H. apply negb_true_iff in H.
    rewrite mbps_scan_tail by done. by rewrite number_tail_no_digit.
  - exact IH.
Qed.

(** Off the stray point, the code parses as the specification says. *)
Lemma parse_mbps_agrees (s : string) :
  stray_point (_strip_nbsp (VStr s)) = false →
  _parse_mbps (VStr s) = spec_parse_mbps s.
Proof.
  intros H. unfold _parse_mbps, spec_parse_mbps. simpl Py.truthy.
  destruct (negb (PyStr.nonempty s)); [done|].
  by rewrite mbps_scan_first_number.
Qed.

(** On a stray point the code gives 0, whatever follows. *)
Lemma parse_mbps_stray (s : string) :
  stray_point (_strip_nbsp (VStr s)) = true → _parse_mbps (VStr s) = Some 0.
Proof.
  intros H. unfold _parse_mbps. simpl Py.truthy.
  destruct (negb (PyStr.nonempty s)); [done|].
  rewrite mbps_scan_stray by done.
  by destruct (gigabit_marker _).
Qed.

(** The empty text and a text without digit or point parse to 0. *)
Lemma parse_mbps_empty : _parse_mbps (VStr "") = Some 0.
Proof. reflexivity. Qed.

(** The example of the specification. *)
Lemma parse_mbps_gigabit_example : _parse_mbps (VStr "2.5 Gbps") = Some 2500.
Proof. vm_compute. reflexivity. Qed.

(** C6 (the code departs from it): in ["Max. 300 Mbps"] the first decimal
    number is 300 and there is no gigabit marker, so the claim gives 300;
    the scan collects the point of ["Max."], stops at the following space,
    and [_parse_mbps] returns 0. *)
Theorem parse_mbps_stray_point :
  stray_point (_strip_nbsp (VStr "Max. 300 Mbps")) = true
  ∧ first_decimal_number (_strip_nbsp (VStr "Max. 300 Mbps")) = "300"
  ∧ spec_parse_mbps "Max. 300 Mbps" = Some 300
  ∧ _parse_mbps (VStr "Max. 300 Mbps") = Some 0.
Proof. repeat split; vm_compute; reflexivity. Qed.

End Throughput.

(** ** The normaliser *)

Section Normaliser.
Implicit Types (m out : record).

Lemma yes_no_idempotent v : _yes_no (_yes_no v) = _yes_no v.
Proof.
  destruct (PyStr.startswith (PyStr.lower (PyStr.strip (Py.str v))) "y") eqn:Ey.
  { assert (_yes_no v = VStr "Yes") as -> by (unfold _yes_no; by rewrite Ey).
    reflexivity. }
  destruct (PyStr.startswith (PyStr.lower (PyStr.strip (Py.str v))) "n") eqn:En.
  { assert (_yes_no v = VStr "No") as ->
      by (unfold _yes_no; by rewrite Ey, En).
    reflexivity. }
  assert (_yes_no v = v) as Hv by (unfold _yes_no; by rewrite Ey, En).
  by rewrite !Hv.
Qed.

(** *** What each step leaves untouched *)

Lemma attach_price_lookup_ne p m k :
  k ≠ PRICE_MATRIX_KEY → attach_price p m !! k = m !! k.
Proof. intros H. destruct p; simpl; [by rewrite lookup_insert_ne|done]. Qed.

Lemma normalize_flag_lookup_ne f m k :
  k ≠ f → normalize_flag f m !! k = m !! k.
Proof.
  intros H. unfold normalize_flag.
  destruct (m !! f); [by rewrite lookup_insert_ne|done].
Qed.

Lemma normalize_flag_lookup f m :
  normalize_flag f m !! f = _yes_no <$> m !! f.
Proof.
  unfold normalize_flag. destruct (m !! f) eqn:E; simpl.
  - apply lookup_insert_eq.
  - done.
Qed.

Lemma infer_5g_lookup_ne m k :
  k ≠ "5G support" → infer_5g m !! k = m !! k.
Proof.
  intros H. unfold infer_5g.
  destruct (_ && _); [by rewrite lookup_insert_ne|].
  destruct (_ && _); [by rewrite lookup_insert_ne|done].
Qed.

Lemma unify_key_lookup_ne c l m k :
  k ≠ c → unify_key c l m !! k = m !! k.
Proof.
  intros H. unfold unify_key.
  destruct (m !! c); [done|]. destruct (m !! l); [|done].
  by rewrite lookup_insert_ne.
Qed.

Lemma derive_mbps_lookup_ne src dst m m' k :
  derive_mbps src dst m = Some m' → k ≠ dst → m' !! k = m !! k.
Proof.
  unfold derive_mbps. intros H Hk. destruct (m !! src) as [v|].
  - destruct (_parse_mbps v) as [n|]; simpl in H; [|done].
    injection H as <-. by rewrite lookup_insert_ne.
  - by injection H as <-.
Qed.

Lemma derive_users_lookup_ne m k :
  k ≠ "Users Min" → k ≠ "Users Max" → derive_users m !! k = m !! k.
Proof.
  intros H1 H2. unfold derive_users.
  destruct (m !! "Number of Recommended Users") as [v|]; [|done].
  destruct (_parse_users_range v) as [lo hi].
  by rewrite !lookup_insert_ne.
Qed.

Lemma derive_ports_lookup_ne src dst m k :
  k ≠ dst → derive_ports src dst m !! k = m !! k.
Proof.
  intros H. unfold derive_ports.
  destruct (m !! src); [by rewrite lookup_insert_ne|done].
Qed.

(** *** Each step leaves a record alone that already holds its result *)

Lemma attach_price_stable p m m' :
  m' !! PRICE_MATRIX_KEY = attach_price p m !! PRICE_MATRIX_KEY →
  attach_price p m' = m'.
Proof.
  destruct p as [p|]; simpl; [|done].
  rewrite lookup_insert_eq. apply insert_id.
Qed.

Lemma modem_group_ext m m' :
  m' !! "Number of Cellular Modems" = m !! "Number of Cellular Modems" →
  modem_group m' = modem_group m.
Proof. unfold modem_group. by intros ->. Qed.

Lemma has_5g_ext m m' :
  m' !! "Number of Cellular Modems" = m !! "Number of Cellular Modems" →
  m' !! "Cellular Modem Category options"
    = m !! "Cellular Modem Category options" →
  m' !! "short_description" = m !! "short_description" →
  has_5g m' = has_5g m.
Proof. unfold has_5g, Py.get. by intros -> -> ->. Qed.

Lemma normalize_flag_fixed f m :
  yes_no_fixed (m !! f) → normalize_flag f m = m.
Proof.
  intros H. unfold normalize_flag. destruct (m !! f) as [v|] eqn:E; [|done].
  rewrite (H v eq_refl). by apply insert_id.
Qed.

Lemma normalize_flag_yes_no_fixed f m :
  yes_no_fixed (normalize_flag f m !! f).
Proof.
  rewrite normalize_flag_lookup. intros v Hv.
  destruct (m !! f) as [w|]; simpl in Hv; [|done].
  injection Hv as <-. apply yes_no_idempotent.
Qed.

Lemma infer_5g_yes_no_fixed m :
  yes_no_fixed (m !! "5G support") →
  yes_no_fixed (infer_5g m !! "5G support").
Proof.
  intros H. unfold infer_5g.
  destruct (_ && _).
  { rewrite lookup_insert_eq. by intros v [= <-]. }
  destruct (_ && _); [|done].
  rewrite lookup_insert_eq. by intros v [= <-].
Qed.

Lemma infer_5g_stable m m' :
  has_5g m' = has_5g m →
  m' !! "5G support" = infer_5g m !! "5G support" →
  infer_5g m' = m'.
Proof.
  intros Hh Hc. unfold infer_5g at 1. rewrite Hh, Hc. clear Hh Hc.
  unfold infer_5g. destruct (has_5g m); simpl.
  - destruct (bool_decide (m !! "5G support" = Some (VStr "Yes"))) eqn:B; simpl.
    + by rewrite B.
    + by rewrite lookup_insert_eq.
  - destruct (blank (m !! "5G support")) eqn:B; simpl.
    + by rewrite lookup_insert_eq.
    + by rewrite B.
Qed.

Lemma unify_key_stable c l m m' :
  m' !! c = unify_key c l m !! c → m' !! l = m !! l →
  unify_key c l m' = m'.
Proof.
  unfold unify_key. intros Hc Hl. rewrite Hl.
  destruct (m !! c) as [vc|] eqn:Ec.
  - rewrite Ec in Hc. by rewrite Hc.
  - destruct (m !! l) as [vl|] eqn:El.
    + rewrite lookup_insert_eq in Hc. by rewrite Hc.
    + rewrite Ec in Hc. by rewrite Hc.
Qed.

Lemma derive_mbps_stable src dst m m1 m' :
  derive_mbps src dst m = Some m1 →
  m' !! src = m !! src → m' !! dst = m1 !! dst →
  derive_mbps src dst m' = Some m'.
Proof.
  unfold derive_mbps. intros H Hs Hd. rewrite Hs.
  destruct (m !! src) as [v|]; [|done].
  destruct (_parse_mbps v) as [n|]; simpl in *; [|done].
  injection H as <-. rewrite lookup_insert_eq in Hd. by rewrite insert_id.
Qed.

Lemma derive_users_stable m m' :
  m' !! "Number of Recommended Users" = m !! "Number of Recommended Users" →
  m' !! "Users Min" = derive_users m !! "Users Min" →
  m' !! "Users Max" = derive_users m !! "Users Max" →
  derive_users m' = m'.
Proof.
  unfold derive_users. intros -> Hmin Hmax.
  destruct (m !! "Number of Recommended Users") as [v|]; [|done].
  destruct (_parse_users_range v) as [lo hi].
  rewrite lookup_insert_ne, lookup_insert_eq in Hmin by done.
  rewrite lookup_insert_eq in Hmax.
  rewrite (insert_id m' "Users Min") by done. by apply insert_id.
Qed.

Lemma derive_ports_stable src dst m m' :
  m' !! src = m !! src → m' !! dst = derive_ports src dst m !! dst →
  derive_ports src dst m' = m'.
Proof.
  unfold derive_ports. intros -> Hd.
  destruct (m !! src) as [v|]; [|done].
  rewrite lookup_insert_eq in Hd. by apply insert_id.
Qed.

(** Reading a field of a record through the steps that do not write it. *)
Ltac key_ne := first [done | unfold PRICE_MATRIX_KEY; discriminate].

Ltac peel H7 H8 :=
  repeat (etrans;
          [ first [ apply derive_ports_lookup_ne; key_ne
                  | apply derive_users_lookup_ne; key_ne
                  | apply (derive_mbps_lookup_ne _ _ _ _ _ H8); key_ne
                  | apply (derive_mbps_lookup_ne _ _ _ _ _ H7); key_ne
                  | apply unify_key_lookup_ne; key_ne
                  | apply infer_5g_lookup_ne; key_ne
                  | apply normalize_flag_lookup_ne; key_ne
                  | apply lookup_insert_ne; key_ne
                  | apply attach_price_lookup_ne; key_ne ] |]).

Ltac same_field H7 H8 := peel H7 H8; symmetry; peel H7 H8; reflexivity.

Section Idempotence.
Variable PRICE_DB : gmap string (gmap string price_map).

(** A record that [augment_product_data] returns is returned unchanged when
    augmented again. *)
Lemma augment_fixed category name pdata r :
  augment_product_data PRICE_DB category name pdata = Some r →
  augment_product_data PRICE_DB category name r = Some r.
Proof.
  unfold augment_product_data.
  set (p := PRICE_DB !! category ≫= (.!! name)).
  set (m0 := attach_price p pdata).
  set (m1 := <["Modem Group" := VStr (modem_group m0)]> m0).
  set (m2 := normalize_flag "Wi‑Fi AP" m1).
  set (m3 := normalize_flag "5G support" m2).
  set (m4 := infer_5g m3).
  set (m5 := unify_key "SpeedFusion Throughput (no encryption)"
               "SpeedFusion VPN Throughput (No Encryption)" m4).
  set (m6 := unify_key "SpeedFusion Throughput (256‑bit AES)"
               "SpeedFusion VPN Throughput (256‑bit AES)" m5).
  destruct (derive_mbps "Router Throughput" "Router Throughput (Mbps)" m6)
    as [m7|] eqn:H7; [|done]. simpl.
  destruct (derive_mbps "SpeedFusion Throughput (no encryption)"
              "SpeedFusion (Mbps)" m7) as [m8|] eqn:H8; [|done]. simpl.
  set (m9 := derive_users m8).
  set (m10 := derive_ports "Number of Ethernet WAN ports" "WAN Ports Max" m9).
  intros [= <-].
  set (r := derive_ports "Number of Ethernet LAN ports" "LAN Ports Max" m10).
  rewrite (attach_price_stable p pdata r).
  2:{ subst r m10 m9 m6 m5 m4 m3 m2 m1 m0. same_field H7 H8. }
  rewrite (modem_group_ext m0 r).
  2:{ subst r m10 m9 m6 m5 m4 m3 m2 m1 m0. same_field H7 H8. }
  rewrite (insert_id r "Modem Group").
  2:{ transitivity (m1 !! "Modem Group"); [|apply lookup_insert_eq].
      subst r m10 m9 m6 m5 m4 m3 m2 m1. same_field H7 H8. }
  rewrite (normalize_flag_fixed "Wi‑Fi AP" r).
  2:{ replace (r !! "Wi‑Fi AP") with (m2 !! "Wi‑Fi AP").
      - apply normalize_flag_yes_no_fixed.
      - subst r m10 m9 m6 m5 m4 m3 m2. same_field H7 H8. }
  rewrite (normalize_flag_fixed "5G support" r).
  2:{ replace (r !! "5G support") with (m4 !! "5G support").
      - apply infer_5g_yes_no_fixed, normalize_flag_yes_no_fixed.
      - subst r m10 m9 m6 m5 m4. same_field H7 H8. }
  rewrite (infer_5g_stable m3 r).
  2:{ apply has_5g_ext; subst r m10 m9 m6 m5 m4; same_field H7 H8. }
  2:{ subst r m10 m9 m6 m5 m4. same_field H7 H8. }
  rewrite (unify_key_stable _ _ m4 r).
  2:{ subst r m10 m9 m6 m5. same_field H7 H8. }
  2:{ subst r m10 m9 m6 m5. same_field H7 H8. }
  rewrite (unify_key_stable _ _ m5 r).
  2:{ subst r m10 m9 m6. same_field H7 H8. }
  2:{ subst r m10 m9 m6. same_field H7 H8. }
  rewrite (derive_mbps_stable _ _ m6 m7 r H7).
  2:{ subst r m10 m9. same_field H7 H8. }
  2:{ subst r m10 m9. same_field H7 H8. }
  simpl.
  rewrite (derive_mbps_stable _ _ m7 m8 r H8).
  2:{ subst r m10 m9. same_field H7 H8. }
  2:{ subst r m10 m9. same_field H7 H8. }
  simpl.
  rewrite (derive_users_stable m8 r).
  2:{ subst r m10 m9. same_field H7 H8. }
  2:{ subst r m10 m9. same_field H7 H8. }
  2:{ subst r m10 m9. same_field H7 H8. }
  rewrite (derive_ports_stable _ _ m9 r).
  2:{ subst r m10. same_field H7 H8. }
  2:{ subst r m10. same_field H7 H8. }
  rewrite (derive_ports_stable _ _ m10 r); [done| |done].
  subst r. same_field H7 H8.
Qed.

(** Augmenting a raw record gives a router throughput that [int] converts,
    unless the raw record brings its own ["Router Throughput (Mbps)"]
    without a ["Router Throughput"] to derive it from. *)
Lemma augment_router_metric category name pdata r :
  augment_product_data PRICE_DB category name pdata = Some r →
  pdata !! "Router Throughput (Mbps)" = None
  ∨ is_Some (pdata !! "Router Throughput") →
  numeric_field "Router Throughput (Mbps)" (name, r).
Proof.
  unfold augment_product_data.
  set (p := PRICE_DB !! category ≫= (.!! name)).
  set (m0 := attach_price p pdata).
  set (m1 := <["Modem Group" := VStr (modem_group m0)]> m0).
  set (m2 := normalize_flag "Wi‑Fi AP" m1).
  set (m3 := normalize_flag "5G support" m2).
  set (m4 := infer_5g m3).
  set (m5 := unify_key "SpeedFusion Throughput (no encryption)"
               "SpeedFusion VPN Throughput (No Encryption)" m4).
  set (m6 := unify_key "SpeedFusion Throughput (256‑bit AES)"
               "SpeedFusion VPN Throughput (256‑bit AES)" m5).
  destruct (derive_mbps "Router Throughput" "Router Throughput (Mbps)" m6)
    as [m7|] eqn:H7; [|done]. simpl.
  destruct (derive_mbps "SpeedFusion Throughput (no encryption)"
              "SpeedFusion (Mbps)" m7) as [m8|] eqn:H8; [|done]. simpl.
  intros [= <-] Hraw. unfold numeric_field, Py.get. simpl.
  match goal with
  | |- is_Some (Py.int (default _ (?x !! _))) =>
      replace (x !! "Router Throughput (Mbps)")
        with (m7 !! "Router Throughput (Mbps)")
  end.
  2:{ symmetry. peel H7 H8. reflexivity. }
  assert (m6 !! "Router Throughput" = pdata !! "Router Throughput") as Hsrc.
  { subst m6 m5 m4 m3 m2 m1 m0. same_field H7 H8. }
  assert (m6 !! "Router Throughput (Mbps)"
          = pdata !! "Router Throughput (Mbps)") as Hdst.
  { subst m6 m5 m4 m3 m2 m1 m0. same_field H7 H8. }
  unfold derive_mbps in H7. rewrite Hsrc in H7.
  destruct (pdata !! "Router Throughput") as [v|] eqn:Ev.
  - destruct (_parse_mbps v) as [n|]; simpl in H7; [|done].
    injection H7 as <-. rewrite lookup_insert_eq. by eexists.
  - injection H7 as <-. rewrite Hdst.
    destruct Hraw as [->|[? ?]]; [by eexists|done].
Qed.

(** The examples of the specification: the modem count ["2 (5G)"] has
    integer prefix 2 and gives the group ["Multi"] and 5G support; the
    throughput ["2.5 Gbps"] gives 2500; the range ["1–60"] gives 1 and 60,
    and ["50"] gives 50 and 50. *)
Example augment_example :
  augment_product_data PRICE_DB "Mobile Routers" "MAX HD2" ex_raw
  = Some (<["Modem Group" := VStr "Multi"]>
            (<["5G support" := VStr "Yes"]>
               (<["Router Throughput (Mbps)" := VInt 2500]>
                  (<["Users Min" := VInt 1]>
                     (<["Users Max" := VInt 60]>
                        (attach_price
                           (PRICE_DB !! "Mobile Routers" ≫= (.!! "MAX HD2"))
                           ex_raw))))))
  ∧ _parse_int_prefix "2 (5G)" = 2
  ∧ _parse_users_range (VStr "50") = (50, 50).
Proof.
  split; [|split; reflexivity].
  unfold augment_product_data.
  destruct (PRICE_DB !! "Mobile Routers" ≫= (.!! "MAX HD2")) as [p|]; simpl;
    vm_compute; reflexivity.
Qed.

(** C4: augmenting the result of [augment_product_data] again gives the same
    enriched record as augmenting once; both sides fail together when the
    first pass raises.  The records are equal as a whole, so every derived
    field (modem group, 5G support, the unified SpeedFusion keys, the
    numeric throughputs, the user bounds, the port maxima, the price
    matrix) has the same value in both. *)
Theorem augment_idempotent category name pdata :
  augment_product_data PRICE_DB category name pdata
    ≫= augment_product_data PRICE_DB category name
  = augment_product_data PRICE_DB category name pdata.
Proof.
  destruct (augment_product_data PRICE_DB category name pdata) as [r|] eqn:Hr;
    [|done].
  simpl. by apply (augment_fixed category name pdata).
Qed.

End Idempotence.

End Normaliser.
